(** * HSK Synchronous Serial Interface (hsk_ssc.h)

    A shallow embedding of the configuration macros and port constants of
    [src/hsk_ssc/hsk_ssc.h], and of the driver life cycle and transceive
    engine the header declares.

    Integers are modelled as [Z]; every C conversion that can lose bits is
    written out as a reduction modulo a power of two. *)

From Stdlib Require Import ZArith Lia Bool.
From stdpp Require Import base list.

Local Open Scope Z_scope.

(** ** Integer types *)

(** Modelled from the spec: the typedefs [uword] and [ubyte] come from the
    chip header, which is not part of the sources.  The external interface
    gives [init(baudDivisor: unsigned 16-bit, frameConfig: unsigned 8-bit,
    mode: bool)] and [talk(buffer, length: unsigned 8-bit)]. *)
Definition uword_bits : Z := 16.

(** Modelled from the spec: [ubyte], "unsigned 8-bit". *)
Definition ubyte_bits : Z := 8.

(** [unsigned long] on the 8051 tool chains the header is written for
    (SDCC, Keil C51); also the least width ISO C allows. *)
Definition ulong_bits : Z := 32.

(** The cast [(uword)e] of an integer value. *)
Definition cast_uword (z : Z) : Z := z mod 2 ^ uword_bits.

(** The conversion of an integer value to [ubyte], as happens when a value
    is passed for a [const ubyte] parameter. *)
Definition cast_ubyte (z : Z) : Z := z mod 2 ^ ubyte_bits.

(** The result of an [unsigned long] operation: reduced modulo [2^32]. *)
Definition ulong_wrap (z : Z) : Z := z mod 2 ^ ulong_bits.

(** ** SSC I/O ports (hsk_ssc.h, lines 76-116) *)

Definition SSC_MRST_P05 : Z := 1.
Definition SSC_MRST_P14 : Z := 0.
Definition SSC_MRST_P15 : Z := 2.

Definition SSC_MTSR_P04 : Z := Z.shiftl 1 2.
Definition SSC_MTSR_P13 : Z := Z.shiftl 0 2.
Definition SSC_MTSR_P14 : Z := Z.shiftl 2 2.

Definition SSC_SCLK_P03 : Z := Z.shiftl 1 4.
Definition SSC_SCLK_P12 : Z := Z.shiftl 0 4.
Definition SSC_SCLK_P13 : Z := Z.shiftl 2 4.

(** The three families of the [SSC_PORTS] group, one per signal role. *)
Definition SSC_MRST : list Z := [SSC_MRST_P05; SSC_MRST_P14; SSC_MRST_P15].

Definition SSC_MTSR : list Z := [SSC_MTSR_P04; SSC_MTSR_P13; SSC_MTSR_P14].

Definition SSC_SCLK : list Z := [SSC_SCLK_P03; SSC_SCLK_P12; SSC_SCLK_P13].

(** An I/O port configuration, [mrst | mtsr | sclk] as in the header's
    example [SSC_MRST_P05 | SSC_MTSR_P4 | SSC_SCLK_P03]. *)
Definition SSC_PORTS (mrst mtsr sclk : Z) : Z := Z.lor (Z.lor mrst mtsr) sclk.

(** The bit ranges of the three roles, and the projections onto them. *)
Definition MRST_MASK : Z := 3.

Definition MTSR_MASK : Z := Z.shiftl 3 2.

Definition SCLK_MASK : Z := Z.shiftl 3 4.

Definition ports_mrst (ports : Z) : Z := Z.land ports MRST_MASK.

Definition ports_mtsr (ports : Z) : Z := Z.land ports MTSR_MASK.

Definition ports_sclk (ports : Z) : Z := Z.land ports SCLK_MASK.

(** ** Operating mode (hsk_ssc.h, lines 125 and 130) *)

Definition SSC_MASTER : bool := true.

Definition SSC_SLAVE : bool := false.

(** ** SSC_BAUD (hsk_ssc.h, line 153)

    [#define SSC_BAUD(bps)  (uword)(12000000ul / (bps) - 1)]

    [bps] is the value of the argument as an [unsigned long] operand, so
    [0 <= bps].  The division and the subtraction are [unsigned long]
    operations: the quotient is at most 12,000,000 and needs no reduction,
    the subtraction wraps.  Division by zero is undefined in C, which is the
    only case without a value ([None]); the macro has no other way not to
    yield a value. *)
Definition SSC_BAUD (bps : Z) : option Z :=
  if bps =? 0 then None
  else Some (cast_uword (ulong_wrap (12000000 / bps - 1))).

(** Two results of the macro compared: both are values and the first is
    at least the second. *)
Definition baud_ge (a b : option Z) : Prop :=
  match a, b with
  | Some x, Some y => y <= x
  | _, _ => False
  end.

(** ** SSC_CONF (hsk_ssc.h, lines 172-173)

    [(((width) - 1) | ((heading) << 4) | ((phase) << 5) | ((polarity) << 6)
       | ((duplex) << 7))]

    The macro is an [int] expression; [|] associates to the left.  For the
    documented arguments every intermediate value lies in [0, 255]. *)
Definition SSC_CONF (width heading phase polarity duplex : Z) : Z :=
  Z.lor (Z.lor (Z.lor (Z.lor (width - 1) (Z.shiftl heading 4))
                      (Z.shiftl phase 5))
               (Z.shiftl polarity 6))
        (Z.shiftl duplex 7).

(** The width field of a configuration byte: bits 0 to 2. *)
Definition conf_width_field (config : Z) : Z := Z.land config 7.

(** The four flags of a configuration byte, read back from bits 4 to 7. *)
Definition conf_heading (config : Z) : Z := Z.land (Z.shiftr config 4) 1.

Definition conf_phase (config : Z) : Z := Z.land (Z.shiftr config 5) 1.

Definition conf_polarity (config : Z) : Z := Z.land (Z.shiftr config 6) 1.

Definition conf_duplex (config : Z) : Z := Z.land (Z.shiftr config 7) 1.

(** A one bit argument of [SSC_CONF]. *)
Definition is_flag (z : Z) : Prop := z = 0 \/ z = 1.

(** ** The encoder contracts as the specification words them

    These two definitions follow the specification text, not the header;
    they are compared with the macros below. *)

(** "fails if the computed divisor would exceed the counter's representable
    range, or if desiredBps exceeds the mode-dependent ceiling (master
    ceiling = sourceFreq/1, slave ceiling = half that)". *)
Definition encodeBaud_spec (desiredBps sourceFreq : Z) (mode : bool) : option Z :=
  let divisor := sourceFreq / desiredBps - 1 in
  let ceiling := if mode then sourceFreq else sourceFreq / 2 in
  if (2 ^ uword_bits - 1 <? divisor) || (ceiling <? desiredBps)
  then None else Some divisor.

(** "fails if width outside [2,8]; packs deterministically". *)
Definition encodeFrame_spec (width bitOrder clockPhase clockPolarity duplexMode : Z)
  : option Z :=
  if (width <? 2) || (8 <? width) then None
  else Some (SSC_CONF width bitOrder clockPhase clockPolarity duplexMode).

(** ** The driver

    Modelled from the spec: the bodies of [hsk_ssc_init], [hsk_ssc_ports],
    [hsk_ssc_talk], [hsk_ssc_enable] and [hsk_ssc_disable] and the completion
    interrupt are missing, the header holds their prototypes only.  The
    definitions of this part follow the specification's data model (its
    PeripheralState and TransceiveBuffer), its Lifecycle Controller, its Port
    Router and its Transceive Engine. *)

(** Modelled from the spec: hardware state "with exactly three phases". *)
Inductive PeripheralState : Type :=
  | Disabled
  | EnabledIdle
  | EnabledBusy.

(** Modelled from the spec: the registers written by [init] and [ports],
    and the buffer the driver borrows for one transceive call, with its
    length and the position of the byte in flight. *)
Record ssc : Type := Ssc {
  state : PeripheralState;
  baud : Z;
  config : Z;
  mode : bool;
  ports : Z;
  buffer : list Z;
  len : nat;
  cursor : nat
}.

Definition with_state (st : PeripheralState) (s : ssc) : ssc :=
  Ssc st (baud s) (config s) (mode s) (ports s) (buffer s) (len s) (cursor s).

Definition with_transfer (buf : list Z) (n i : nat) (s : ssc) : ssc :=
  Ssc (state s) (baud s) (config s) (mode s) (ports s) buf n i.

(** Modelled from the spec: what can be observed of the per-byte steps of
    [talk] on the wire and on the completion flag:
    [Transmit i b] is step 1 for position [i] (byte [b] loaded into the shift
    register), [Complete i r] is step 3 (completion flag, [buffer[i]]
    overwritten with the received byte [r]). *)
Inductive event : Type :=
  | Transmit (i : nat) (b : Z)
  | Complete (i : nat) (r : Z).

Definition is_completion (e : event) : bool :=
  match e with
  | Complete _ _ => true
  | Transmit _ _ => false
  end.

(** Modelled from the spec: the peripheral before the first [init]
    ("created at init -> Disabled"), nothing configured, no buffer lent. *)
Definition power_on : ssc := Ssc Disabled 0 0 SSC_SLAVE 0 [] 0 0.

(** Modelled from the spec: "init(divisor, frameConfig, mode): writes divisor
    and frame config registers, sets operating mode, leaves state Disabled.
    Always legal; overwrites any prior configuration."  The arguments are a
    [const uword], a [const ubyte] and a [const bool]. *)
Definition hsk_ssc_init (b c : Z) (m : bool) (s : ssc) : ssc :=
  Ssc Disabled (cast_uword b) (cast_ubyte c) m (ports s)
      (buffer s) (len s) (cursor s).

(** Modelled from the spec: "applyPorts(selection): writes routing bits to
    the peripheral. Precondition: PeripheralState = Disabled"; while enabled
    the behaviour is undefined ([None]). *)
Definition hsk_ssc_ports (p : Z) (s : ssc) : option ssc :=
  match state s with
  | Disabled =>
      Some (Ssc Disabled (baud s) (config s) (mode s) (cast_ubyte p)
                (buffer s) (len s) (cursor s))
  | _ => None
  end.

(** Modelled from the spec: "enable(): Disabled -> Enabled-Idle. No-op if
    already enabled." *)
Definition hsk_ssc_enable (s : ssc) : ssc :=
  match state s with
  | Disabled => with_state EnabledIdle s
  | _ => s
  end.

(** Modelled from the spec: "disable(): any state -> Disabled; if a transfer
    was Enabled-Busy, it is aborted - remaining untransferred bytes in the
    caller's buffer are left unmodified". *)
Definition hsk_ssc_disable (s : ssc) : ssc := with_state Disabled s.

(** Modelled from the spec: "busy() -> bool: non-blocking read of
    PeripheralState = Enabled-Busy". *)
Definition hsk_ssc_busy (s : ssc) : bool :=
  match state s with
  | EnabledBusy => true
  | _ => false
  end.

(** Modelled from the spec: "talk(buffer, length): requires PeripheralState =
    Enabled-Idle"; "length = 0 is a no-op, stays Enabled-Idle, no completion
    events"; otherwise step 1 of the first byte: [buffer[0]] is loaded into
    the shift register and the state becomes Enabled-Busy.  A buffer shorter
    than [n] and a call outside Enabled-Idle are precondition violations
    ([None]). *)
Definition hsk_ssc_talk (buf : list Z) (n : nat) (s : ssc)
  : option (ssc * list event) :=
  match state s with
  | EnabledIdle =>
      match n with
      | O => Some (with_transfer buf 0 0 s, [])
      | S _ =>
          b ← buf !! 0%nat;
          Some (with_state EnabledBusy (with_transfer buf n 0 s),
                [Transmit 0 b])
      end
  | _ => None
  end.

(** Modelled from the spec: step 3 of position [cursor], then step 1 of the
    next position: "on completion of the byte (signaled by a hardware
    completion flag), overwrite buffer[i] with the received byte", and "back
    to Enabled-Idle only after the last byte's completion flag fires".  [r]
    is the byte the shift register received during step 2.  There is no
    completion without a transfer in flight ([None]). *)
Definition completion (r : Z) (s : ssc) : option (ssc * list event) :=
  match state s with
  | EnabledBusy =>
      let i := cursor s in
      _ ← buffer s !! i;
      let buf := <[i := r]> (buffer s) in
      if (S i <? len s)%nat then
        b ← buf !! S i;
        Some (with_transfer buf (len s) (S i) s,
              [Complete i r; Transmit (S i) b])
      else
        Some (with_state EnabledIdle (with_transfer buf (len s) (S i) s),
              [Complete i r])
  | _ => None
  end.

(** Modelled from the spec: the completion events of the bytes received in
    [rx], one per byte, in order. *)
Fixpoint completions (rx : list Z) (s : ssc) : option (ssc * list event) :=
  match rx with
  | [] => Some (s, [])
  | r :: rx' =>
      '(s1, t1) ← completion r s;
      '(s2, t2) ← completions rx' s1;
      Some (s2, t1 ++ t2)
  end.

(** Modelled from the spec: one call of [hsk_ssc_talk] followed by the
    completions of the bytes [rx] received on the line. *)
Definition talk_run (buf : list Z) (n : nat) (rx : list Z) (s : ssc)
  : option (ssc * list event) :=
  '(s1, t1) ← hsk_ssc_talk buf n s;
  '(s2, t2) ← completions rx s1;
  Some (s2, t1 ++ t2).

(** The trace of a transfer without gaps: position [i] is transmitted, then
    completed, then position [i+1], and so on. *)
Fixpoint exchange_trace (i : nat) (tx rx : list Z) : list event :=
  match tx, rx with
  | b :: tx', r :: rx' =>
      Transmit i b :: Complete i r :: exchange_trace (S i) tx' rx'
  | _, _ => []
  end.

(** The number of completion events in a trace. *)
Fixpoint count_completions (tr : list event) : nat :=
  match tr with
  | [] => 0
  | e :: tr' =>
      if is_completion e then S (count_completions tr')
      else count_completions tr'
  end.

(** Modelled from the spec: calls and interrupts as a transition system,
    and the states it reaches from the first [init]. *)
Inductive call : Type :=
  | Init (b c : Z) (m : bool)
  | Ports (p : Z)
  | Enable
  | Disable
  | Talk (buf : list Z) (n : nat)
  | Completion (r : Z).

Definition step (c : call) (s : ssc) : option ssc :=
  match c with
  | Init b c m => Some (hsk_ssc_init b c m s)
  | Ports p => hsk_ssc_ports p s
  | Enable => Some (hsk_ssc_enable s)
  | Disable => Some (hsk_ssc_disable s)
  | Talk buf n => fst <$> hsk_ssc_talk buf n s
  | Completion r => fst <$> completion r s
  end.

Fixpoint run (cs : list call) (s : ssc) : option ssc :=
  match cs with
  | [] => Some s
  | c :: cs' => s' ← step c s; run cs' s'
  end.

Definition reachable (s : ssc) : Prop :=
  exists b c m cs, run cs (hsk_ssc_init b c m power_on) = Some s.

(** A state in the middle of a transfer: set up in the order the header
    gives (init, ports, enable), then [hsk_ssc_talk] on a two byte
    buffer. *)
Definition mid_transfer : ssc :=
  Ssc EnabledBusy 11 135 SSC_MASTER 21 [170; 187] 2 0.

(** ** Further parts of the header *)


(** The pin direction macros the header recommends for half duplex
    operation with [SSC_MRST_P05] in slave mode (hsk_ssc.h, lines 32-33):

    [#define SSC_TX()    (P0_DIR |= 1 << 5)]
    [#define SSC_RX()    (P0_DIR &= ~(1 << 5))]

    [P0_DIR] is an 8 bit special function register; each macro is a
    function of its value.  The operators work on [int], the assignment
    converts the result back to the 8 bits of the register. *)
Definition SSC_TX (P0_DIR : Z) : Z :=
  cast_ubyte (Z.lor P0_DIR (Z.shiftl 1 5)).

Definition SSC_RX (P0_DIR : Z) : Z :=
  cast_ubyte (Z.land P0_DIR (Z.lnot (Z.shiftl 1 5))).

(** The buffer position an event is about. *)
Definition event_position (e : event) : nat :=
  match e with
  | Transmit i _ => i
  | Complete i _ => i
  end.

(** * Properties *)

(** ** Examples from the header and the specification *)

Example SSC_BAUD_1M : SSC_BAUD 1000000 = Some 11.
Proof. reflexivity. Qed.

Example SSC_CONF_half_duplex_8 : SSC_CONF 8 0 0 0 1 = 135.
Proof. reflexivity. Qed.

Example header_ports_example :
  SSC_PORTS SSC_MRST_P05 SSC_MTSR_P04 SSC_SCLK_P03 = 21.
Proof. reflexivity. Qed.

(** Loopback: TX wired to RX leaves the buffer as it was. *)
Example talk_loopback :
  (fun r => (buffer (fst r), snd r, hsk_ssc_busy (fst r))) <$>
    talk_run [170; 187] 2 [170; 187] (hsk_ssc_enable (hsk_ssc_init 11 135 SSC_MASTER power_on))
  = Some ([170; 187],
          [Transmit 0 170; Complete 0 170; Transmit 1 187; Complete 1 187],
          false).
Proof. reflexivity. Qed.

Example talk_exchange :
  (fun r => (buffer (fst r), snd r)) <$>
    talk_run [1; 2; 3; 4] 3 [7; 8; 9] (hsk_ssc_enable (hsk_ssc_init 11 135 SSC_MASTER power_on))
  = Some ([7; 8; 9; 4],
          [Transmit 0 1; Complete 0 7; Transmit 1 2; Complete 1 8;
           Transmit 2 3; Complete 2 9]).
Proof. reflexivity. Qed.

(** ** SSC_BAUD *)

Lemma cast_uword_ulong_wrap (z : Z) : cast_uword (ulong_wrap z) = z mod 65536.
Proof.
  unfold cast_uword, ulong_wrap, uword_bits, ulong_bits.
  apply Z.mod_mod_divide. exists 65536. reflexivity.
Qed.

(** For a non-zero argument the macro has a value: the divisor reduced to
    16 bits. *)
Lemma SSC_BAUD_nonzero (bps : Z) :
  bps <> 0 -> SSC_BAUD bps = Some ((12000000 / bps - 1) mod 65536).
Proof.
  intros Hbps. unfold SSC_BAUD.
  destruct (Z.eqb_spec bps 0) as [->|_]; [contradiction|].
  now rewrite cast_uword_ulong_wrap.
Qed.

Lemma quotient_bounds (bps : Z) :
  184 <= bps <= 12000000 -> 1 <= 12000000 / bps <= 65217.
Proof.
  intros [Hlo Hhi]. split.
  - apply Z.div_le_lower_bound; lia.
  - change 65217 with (12000000 / 184).
    apply Z.div_le_compat_l; lia.
Qed.

Lemma quotient_large (bps : Z) :
  1 <= bps <= 183 -> 65573 <= 12000000 / bps.
Proof.
  intros [Hlo Hhi].
  change 65573 with (12000000 / 183).
  apply Z.div_le_compat_l; lia.
Qed.

(** Where the divisor fits the 16 bit reload value the cast changes
    nothing. *)
Lemma SSC_BAUD_exact (bps : Z) :
  184 <= bps <= 12000000 -> SSC_BAUD bps = Some (12000000 / bps - 1).
Proof.
  intros H. rewrite SSC_BAUD_nonzero by lia.
  pose proof (quotient_bounds bps H).
  rewrite Z.mod_small by lia. reflexivity.
Qed.

(** C1, as stated, fails: for [bps = 1] the divisor is 11,999,999, which the
    cast to the 16 bit [uword] reduces to 6911. *)
Lemma SSC_BAUD_small_bps_truncated :
  1 <= 1 <= 12000000 /\
  SSC_BAUD 1 = Some 6911 /\
  SSC_BAUD 1 <> Some (12000000 / 1 - 1) /\
  ~ (forall bps, 1 <= bps <= 12000000 ->
       SSC_BAUD bps = Some (12000000 / bps - 1)).
Proof.
  assert (H1 : SSC_BAUD 1 = Some 6911) by reflexivity.
  assert (Hne : SSC_BAUD 1 <> Some (12000000 / 1 - 1)).
  { rewrite H1. change (12000000 / 1 - 1) with 11999999. intros [=]. }
  repeat split; try lia; try assumption.
  intros Hall. apply Hne. apply Hall. lia.
Qed.

(** C1 (amended): for every [bps] with [184 <= bps <= 12,000,000] the macro
    returns exactly [floor(12,000,000 / bps) - 1]; for [1 <= bps <= 183]
    that divisor does not fit the 16 bit [uword] and the macro returns it
    modulo 65536, which is another number; [SSC_BAUD(1,000,000) = 11]. *)
Theorem SSC_BAUD_divisor (bps : Z) :
  1 <= bps <= 12000000 ->
  SSC_BAUD bps = Some ((12000000 / bps - 1) mod 65536) /\
  (184 <= bps -> SSC_BAUD bps = Some (12000000 / bps - 1)) /\
  (bps <= 183 -> SSC_BAUD bps <> Some (12000000 / bps - 1)) /\
  SSC_BAUD 1000000 = Some 11.
Proof.
  intros H. split; [|split; [|split]].
  - apply SSC_BAUD_nonzero. lia.
  - intros Hlo. apply SSC_BAUD_exact. lia.
  - intros Hhi. rewrite SSC_BAUD_nonzero by lia.
    pose proof (quotient_large bps ltac:(lia)) as Hq.
    pose proof (Z.mod_pos_bound (12000000 / bps - 1) 65536 ltac:(lia)) as Hm.
    intros [= Heq]. lia.
  - reflexivity.
Qed.

Lemma SSC_BAUD_divisor_witness :
  SSC_BAUD 1000000 = Some ((12000000 / 1000000 - 1) mod 65536) /\
  (184 <= 1000000 -> SSC_BAUD 1000000 = Some (12000000 / 1000000 - 1)) /\
  (1000000 <= 183 -> SSC_BAUD 1000000 <> Some (12000000 / 1000000 - 1)) /\
  SSC_BAUD 1000000 = Some 11.
Proof. apply (SSC_BAUD_divisor 1000000). lia. Defined.

(** C6, as stated, fails: 183 bits/s is slower than 184 bits/s, yet the
    macro gives 36 for the first and 65216 for the second. *)
Lemma SSC_BAUD_not_monotone :
  1 <= 183 <= 184 /\ 184 <= 12000000 /\
  SSC_BAUD 183 = Some 36 /\ SSC_BAUD 184 = Some 65216 /\
  ~ baud_ge (SSC_BAUD 183) (SSC_BAUD 184).
Proof.
  repeat split; try lia; try reflexivity.
  change (SSC_BAUD 183) with (Some 36).
  change (SSC_BAUD 184) with (Some 65216).
  simpl. lia.
Qed.

(** C6 (amended): the baud encoding is monotone where the divisor fits the
    16 bit reload value: for [184 <= bps1 <= bps2 <= 12,000,000],
    [SSC_BAUD(bps1) >= SSC_BAUD(bps2)]. *)
Theorem SSC_BAUD_monotone (bps1 bps2 : Z) :
  184 <= bps1 -> bps1 <= bps2 -> bps2 <= 12000000 ->
  baud_ge (SSC_BAUD bps1) (SSC_BAUD bps2).
Proof.
  intros H1 H12 H2.
  rewrite !SSC_BAUD_exact by lia. simpl.
  assert (12000000 / bps2 <= 12000000 / bps1)
    by (apply Z.div_le_compat_l; lia).
  lia.
Qed.

Lemma SSC_BAUD_monotone_witness :
  baud_ge (SSC_BAUD 1000000) (SSC_BAUD 3000000).
Proof. apply (SSC_BAUD_monotone 1000000 3000000); lia. Defined.

(** C10: for every [bps] above 12,000,000 the quotient is 0, the unsigned
    subtraction wraps to the largest [unsigned long], and the cast leaves
    [0xFFFF], the largest value the macro can give: the macro has a value,
    it rejects nothing. *)
Theorem SSC_BAUD_over_ceiling (bps : Z) :
  12000000 < bps ->
  12000000 / bps = 0 /\
  ulong_wrap (0 - 1) = 2 ^ 32 - 1 /\
  SSC_BAUD bps = Some 0xFFFF /\
  SSC_BAUD bps <> None /\
  (forall bps' v, SSC_BAUD bps' = Some v -> v <= 0xFFFF).
Proof.
  intros H.
  assert (Hq : 12000000 / bps = 0) by (apply Z.div_small; lia).
  assert (Hv : SSC_BAUD bps = Some 0xFFFF)
    by (rewrite SSC_BAUD_nonzero by lia; rewrite Hq; reflexivity).
  split; [exact Hq|]. split; [reflexivity|]. split; [exact Hv|].
  split; [rewrite Hv; discriminate|].
  intros bps' v Hv'. unfold SSC_BAUD in Hv'.
  destruct (bps' =? 0); [discriminate|].
  injection Hv' as <-. rewrite cast_uword_ulong_wrap.
  pose proof (Z.mod_pos_bound (12000000 / bps' - 1) 65536 ltac:(lia)). lia.
Qed.

Lemma SSC_BAUD_over_ceiling_witness :
  12000000 < 12000001 /\
  12000000 / 12000001 = 0 /\
  SSC_BAUD 12000001 = Some 0xFFFF.
Proof.
  split; [lia|].
  destruct (SSC_BAUD_over_ceiling 12000001 ltac:(lia)) as (Hq & _ & Hv & _).
  split; assumption.
Defined.

(** C8, as stated, fails: the specification's encoder rejects 1 bit/s
    (divisor beyond the counter), 12,000,001 bits/s (above the master
    ceiling) and 12,000,000 bits/s in slave mode; the macro returns a value
    for each, and has no mode argument. *)
Lemma SSC_BAUD_rejects_nothing :
  encodeBaud_spec 1 12000000 SSC_MASTER = None /\
  SSC_BAUD 1 = Some 6911 /\
  encodeBaud_spec 12000001 12000000 SSC_MASTER = None /\
  SSC_BAUD 12000001 = Some 65535 /\
  encodeBaud_spec 12000000 12000000 SSC_SLAVE = None /\
  SSC_BAUD 12000000 = Some 0 /\
  ~ (forall bps mode, 1 <= bps ->
       encodeBaud_spec bps 12000000 mode = None -> SSC_BAUD bps = None).
Proof.
  repeat split; try reflexivity.
  intros Hall. specialize (Hall 1 SSC_MASTER ltac:(lia) eq_refl).
  discriminate Hall.
Qed.

(** C8 (amended): the baud macro has no error path and no mode argument:
    for every [bps >= 1] it yields a 16 bit value, the divisor
    [floor(12,000,000 / bps) - 1] modulo 65536.  A request the
    specification's encoder rejects still gets a value. *)
Theorem SSC_BAUD_total (bps : Z) :
  1 <= bps ->
  exists v, SSC_BAUD bps = Some v /\
            0 <= v <= 65535 /\
            v = (12000000 / bps - 1) mod 65536.
Proof.
  intros H. exists ((12000000 / bps - 1) mod 65536).
  split; [apply SSC_BAUD_nonzero; lia|].
  split; [|reflexivity].
  pose proof (Z.mod_pos_bound (12000000 / bps - 1) 65536 ltac:(lia)). lia.
Qed.

Lemma SSC_BAUD_total_witness :
  exists v, SSC_BAUD 183 = Some v /\
            0 <= v <= 65535 /\
            v = (12000000 / 183 - 1) mod 65536.
Proof. apply (SSC_BAUD_total 183). lia. Defined.

(** ** SSC_CONF *)

Lemma width_cases (width : Z) :
  2 <= width <= 8 ->
  width = 2 \/ width = 3 \/ width = 4 \/ width = 5 \/
  width = 6 \/ width = 7 \/ width = 8.
Proof. lia. Qed.

(** Enumerates the documented arguments: seven widths, sixteen flag
    settings. *)
Ltac conf_cases :=
  repeat match goal with
         | H : is_flag _ |- _ => destruct H as [-> | ->]
         | H : 2 <= ?w <= 8 |- _ =>
             apply width_cases in H;
             destruct H as [-> | [-> | [-> | [-> | [-> | [-> | ->]]]]]]
         end.

Section Documented_arguments.
Variables width heading phase polarity duplex : Z.
Hypothesis Hwidth : 2 <= width <= 8.
Hypothesis Hheading : is_flag heading.
Hypothesis Hphase : is_flag phase.
Hypothesis Hpolarity : is_flag polarity.
Hypothesis Hduplex : is_flag duplex.

Let conf := SSC_CONF width heading phase polarity duplex.

(** For the documented arguments the fields do not overlap: [|] adds. *)
Lemma SSC_CONF_sum :
  conf = (width - 1) + 16 * heading + 32 * phase + 64 * polarity
         + 128 * duplex.
Proof using All. subst conf. conf_cases; reflexivity. Qed.

Lemma SSC_CONF_ubyte : 0 <= conf <= 255.
Proof using All.
  rewrite SSC_CONF_sum.
  unfold is_flag in *. lia.
Qed.

Lemma SSC_CONF_width_field : conf_width_field conf = width - 1.
Proof using All. subst conf. conf_cases; reflexivity. Qed.

Lemma SSC_CONF_flags :
  conf_heading conf = heading /\ conf_phase conf = phase /\
  conf_polarity conf = polarity /\ conf_duplex conf = duplex.
Proof using All. subst conf. conf_cases; repeat split; reflexivity. Qed.

Lemma SSC_CONF_low_bits (i : Z) :
  0 <= i <= 2 -> Z.testbit conf i = Z.testbit (width - 1) i.
Proof using All.
  intros Hi.
  assert (i = 0 \/ i = 1 \/ i = 2) as [-> | [-> | ->]] by lia;
    subst conf; conf_cases; reflexivity.
Qed.

Lemma SSC_CONF_flag_bits :
  Z.testbit conf 3 = false /\
  Z.testbit conf 4 = (heading =? 1) /\
  Z.testbit conf 5 = (phase =? 1) /\
  Z.testbit conf 6 = (polarity =? 1) /\
  Z.testbit conf 7 = (duplex =? 1).
Proof using All. subst conf. conf_cases; repeat split; reflexivity. Qed.

Lemma SSC_CONF_high_bits (i : Z) : 8 <= i -> Z.testbit conf i = false.
Proof using All.
  intros Hi. pose proof SSC_CONF_ubyte as Hb.
  destruct (Z.eq_dec conf 0) as [-> | Hne]; [apply Z.testbit_0_l|].
  apply Z.bits_above_log2; [lia|].
  assert (Z.log2 conf < 8) by (apply Z.log2_lt_pow2; lia).
  lia.
Qed.
End Documented_arguments.

(** C2: for every width in [2,8] and flags in {0,1}, bits 0 to 2 of the
    configuration byte hold [width - 1]; and
    [SSC_CONF(8, 0, 0, 0, 1)] is the byte [0x87]. *)
Theorem SSC_CONF_width_bits (width heading phase polarity duplex : Z) :
  2 <= width <= 8 ->
  is_flag heading -> is_flag phase -> is_flag polarity -> is_flag duplex ->
  (forall i, 0 <= i <= 2 ->
     Z.testbit (SSC_CONF width heading phase polarity duplex) i
     = Z.testbit (width - 1) i) /\
  Z.land (SSC_CONF width heading phase polarity duplex) 7 = width - 1 /\
  SSC_CONF 8 0 0 0 1 = 135 /\ 135 = 0x87.
Proof.
  intros Hw Hh Hp Hpol Hd. repeat split.
  - intros i Hi. now apply SSC_CONF_low_bits.
  - now apply SSC_CONF_width_field.
Qed.

Lemma SSC_CONF_width_bits_witness :
  (forall i, 0 <= i <= 2 ->
     Z.testbit (SSC_CONF 8 0 0 0 1) i = Z.testbit (8 - 1) i) /\
  Z.land (SSC_CONF 8 0 0 0 1) 7 = 8 - 1 /\
  SSC_CONF 8 0 0 0 1 = 135 /\ 135 = 0x87.
Proof.
  apply (SSC_CONF_width_bits 8 0 0 0 1);
    unfold is_flag; lia.
Defined.

(** C3, as stated, fails: width 8 is stored as 7, outside the range 0 to
    6. *)
Lemma SSC_CONF_width_field_of_8 :
  2 <= 8 <= 8 /\
  conf_width_field (SSC_CONF 8 0 0 0 0) = 7 /\
  ~ (0 <= conf_width_field (SSC_CONF 8 0 0 0 0) <= 6).
Proof.
  change (conf_width_field (SSC_CONF 8 0 0 0 0)) with 7.
  repeat split; lia.
Qed.

(** C3 (amended): for every width in [2,8] the width field of the byte is
    [width - 1] and lies in the range 1 to 7; heading, phase, polarity and
    duplex are bits 4, 5, 6 and 7, above the width field; bit 3 and the
    bits from 8 on are clear. *)
Theorem SSC_CONF_layout (width heading phase polarity duplex : Z) :
  2 <= width <= 8 ->
  is_flag heading -> is_flag phase -> is_flag polarity -> is_flag duplex ->
  let c := SSC_CONF width heading phase polarity duplex in
  conf_width_field c = width - 1 /\
  1 <= conf_width_field c <= 7 /\
  Z.testbit c 3 = false /\
  Z.testbit c 4 = (heading =? 1) /\
  Z.testbit c 5 = (phase =? 1) /\
  Z.testbit c 6 = (polarity =? 1) /\
  Z.testbit c 7 = (duplex =? 1) /\
  (forall i, 8 <= i -> Z.testbit c i = false).
Proof.
  intros Hw Hh Hp Hpol Hd c. subst c.
  pose proof (SSC_CONF_width_field _ _ _ _ _ Hw Hh Hp Hpol Hd) as Hf.
  split; [exact Hf|]. split; [rewrite Hf; lia|].
  pose proof (SSC_CONF_flag_bits _ _ _ _ _ Hw Hh Hp Hpol Hd)
    as (H3 & H4 & H5 & H6 & H7).
  repeat (split; [assumption|]).
  intros i Hi. now apply SSC_CONF_high_bits.
Qed.

Lemma SSC_CONF_layout_witness :
  let c := SSC_CONF 8 1 0 1 0 in
  conf_width_field c = 8 - 1 /\
  1 <= conf_width_field c <= 7 /\
  Z.testbit c 3 = false /\
  Z.testbit c 4 = (1 =? 1) /\
  Z.testbit c 5 = (0 =? 1) /\
  Z.testbit c 6 = (1 =? 1) /\
  Z.testbit c 7 = (0 =? 1) /\
  (forall i, 8 <= i -> Z.testbit c i = false).
Proof.
  apply (SSC_CONF_layout 8 1 0 1 0); unfold is_flag; lia.
Defined.

(** C7, as stated, fails: the macro gives a value for widths outside
    [2,8] too, and that value reports nothing: width 18 with heading 0
    yields the very byte of width 2 with heading 1.  So no test on the
    result can tell the widths outside [2,8] from those inside. *)
Lemma SSC_CONF_rejects_nothing :
  encodeFrame_spec 9 0 0 0 0 = None /\
  SSC_CONF 9 0 0 0 0 = 8 /\
  encodeFrame_spec 18 0 0 0 0 = None /\
  encodeFrame_spec 2 1 0 0 0 = Some 17 /\
  SSC_CONF 18 0 0 0 0 = 17 /\
  SSC_CONF 2 1 0 0 0 = 17 /\
  ~ (exists fails : Z -> bool,
       forall width heading phase polarity duplex,
         is_flag heading -> is_flag phase ->
         is_flag polarity -> is_flag duplex ->
         (fails (SSC_CONF width heading phase polarity duplex) = true
          <-> ~ 2 <= width <= 8)).
Proof.
  repeat split; try reflexivity.
  intros [fails Hall].
  pose proof (Hall 18 0 0 0 0) as Hout.
  pose proof (Hall 2 1 0 0 0) as Hin.
  change (SSC_CONF 18 0 0 0 0) with 17 in Hout.
  change (SSC_CONF 2 1 0 0 0) with 17 in Hin.
  unfold is_flag in Hout, Hin.
  assert (H17 : fails 17 = true) by (apply Hout; lia).
  apply Hin in H17; lia.
Qed.

(** C7 (amended): the frame-config macro has no error path.  For every
    width in [2,8] and flags in {0,1} it yields the byte the specification's
    encoder returns, in 0..255, from which the five arguments can be read
    back; for a width outside [2,8] it yields a value as well (8 for
    width 9). *)
Theorem SSC_CONF_succeeds (width heading phase polarity duplex : Z) :
  2 <= width <= 8 ->
  is_flag heading -> is_flag phase -> is_flag polarity -> is_flag duplex ->
  let c := SSC_CONF width heading phase polarity duplex in
  encodeFrame_spec width heading phase polarity duplex = Some c /\
  0 <= c <= 255 /\
  conf_width_field c + 1 = width /\
  conf_heading c = heading /\ conf_phase c = phase /\
  conf_polarity c = polarity /\ conf_duplex c = duplex.
Proof.
  intros Hw Hh Hp Hpol Hd c. subst c.
  split.
  { unfold encodeFrame_spec.
    destruct (Z.ltb_spec width 2); [lia|].
    destruct (Z.ltb_spec 8 width); [lia|]. reflexivity. }
  split; [now apply SSC_CONF_ubyte|].
  split; [rewrite SSC_CONF_width_field by assumption; lia|].
  now apply SSC_CONF_flags.
Qed.

Lemma SSC_CONF_succeeds_witness :
  let c := SSC_CONF 5 1 1 0 1 in
  encodeFrame_spec 5 1 1 0 1 = Some c /\
  0 <= c <= 255 /\
  conf_width_field c + 1 = 5 /\
  conf_heading c = 1 /\ conf_phase c = 1 /\
  conf_polarity c = 0 /\ conf_duplex c = 1.
Proof.
  apply (SSC_CONF_succeeds 5 1 1 0 1); unfold is_flag; lia.
Defined.

(** ** SSC I/O ports *)

Ltac port_cases :=
  repeat match goal with
         | H : In _ SSC_MRST |- _ =>
             simpl in H; destruct H as [<- | [<- | [<- | []]]]
         | H : In _ SSC_MTSR |- _ =>
             simpl in H; destruct H as [<- | [<- | [<- | []]]]
         | H : In _ SSC_SCLK |- _ =>
             simpl in H; destruct H as [<- | [<- | [<- | []]]]
         end.

(** Every constant lies within the bit range of its role, and the three
    ranges have no bit in common. *)
Lemma port_ranges (mrst mtsr sclk : Z) :
  In mrst SSC_MRST -> In mtsr SSC_MTSR -> In sclk SSC_SCLK ->
  Z.land mrst MRST_MASK = mrst /\
  Z.land mtsr MTSR_MASK = mtsr /\
  Z.land sclk SCLK_MASK = sclk.
Proof. intros Hr Ht Hc. port_cases; repeat split; reflexivity. Qed.

Lemma port_masks_disjoint :
  Z.land MRST_MASK MTSR_MASK = 0 /\
  Z.land MRST_MASK SCLK_MASK = 0 /\
  Z.land MTSR_MASK SCLK_MASK = 0.
Proof. repeat split; reflexivity. Qed.

Lemma SSC_PORTS_projections (mrst mtsr sclk : Z) :
  In mrst SSC_MRST -> In mtsr SSC_MTSR -> In sclk SSC_SCLK ->
  ports_mrst (SSC_PORTS mrst mtsr sclk) = mrst /\
  ports_mtsr (SSC_PORTS mrst mtsr sclk) = mtsr /\
  ports_sclk (SSC_PORTS mrst mtsr sclk) = sclk.
Proof. intros Hr Ht Hc. port_cases; repeat split; reflexivity. Qed.

(** C5: the constants of the three roles occupy pairwise disjoint bit
    ranges; for one constant per role the bitwise OR equals the sum, and
    each role's code is recovered from the combined value, so two
    selections with the same value are the same selection. *)
Theorem SSC_PORTS_additive (mrst mtsr sclk : Z) :
  In mrst SSC_MRST -> In mtsr SSC_MTSR -> In sclk SSC_SCLK ->
  (Z.land mrst mtsr = 0 /\ Z.land mrst sclk = 0 /\ Z.land mtsr sclk = 0) /\
  (Z.land mrst MRST_MASK = mrst /\ Z.land mtsr MTSR_MASK = mtsr /\
   Z.land sclk SCLK_MASK = sclk) /\
  (Z.land MRST_MASK MTSR_MASK = 0 /\ Z.land MRST_MASK SCLK_MASK = 0 /\
   Z.land MTSR_MASK SCLK_MASK = 0) /\
  SSC_PORTS mrst mtsr sclk = mrst + mtsr + sclk /\
  (ports_mrst (SSC_PORTS mrst mtsr sclk) = mrst /\
   ports_mtsr (SSC_PORTS mrst mtsr sclk) = mtsr /\
   ports_sclk (SSC_PORTS mrst mtsr sclk) = sclk) /\
  (forall mrst' mtsr' sclk',
     In mrst' SSC_MRST -> In mtsr' SSC_MTSR -> In sclk' SSC_SCLK ->
     SSC_PORTS mrst mtsr sclk = SSC_PORTS mrst' mtsr' sclk' ->
     mrst = mrst' /\ mtsr = mtsr' /\ sclk = sclk').
Proof.
  intros Hr Ht Hc.
  split; [port_cases; repeat split; reflexivity|].
  split; [now apply port_ranges|].
  split; [exact port_masks_disjoint|].
  split; [port_cases; reflexivity|].
  split; [now apply SSC_PORTS_projections|].
  intros mrst' mtsr' sclk' Hr' Ht' Hc' Heq.
  destruct (SSC_PORTS_projections mrst mtsr sclk Hr Ht Hc) as (A1 & A2 & A3).
  destruct (SSC_PORTS_projections mrst' mtsr' sclk' Hr' Ht' Hc')
    as (B1 & B2 & B3).
  rewrite Heq in A1, A2, A3.
  repeat split; congruence.
Qed.

Lemma SSC_PORTS_additive_witness :
  In SSC_MRST_P05 SSC_MRST /\ In SSC_MTSR_P04 SSC_MTSR /\
  In SSC_SCLK_P03 SSC_SCLK /\
  SSC_PORTS SSC_MRST_P05 SSC_MTSR_P04 SSC_SCLK_P03
  = SSC_MRST_P05 + SSC_MTSR_P04 + SSC_SCLK_P03.
Proof.
  assert (Hr : In SSC_MRST_P05 SSC_MRST) by (simpl; auto).
  assert (Ht : In SSC_MTSR_P04 SSC_MTSR) by (simpl; auto).
  assert (Hc : In SSC_SCLK_P03 SSC_SCLK) by (simpl; auto).
  repeat (split; [assumption|]).
  apply (SSC_PORTS_additive SSC_MRST_P05 SSC_MTSR_P04 SSC_SCLK_P03 Hr Ht Hc).
Defined.

(** ** Life cycle *)

Lemma mid_transfer_reachable : reachable mid_transfer.
Proof.
  exists 11, 135, SSC_MASTER, [Ports 21; Enable; Talk [170; 187] 2].
  reflexivity.
Qed.

Lemma hsk_ssc_enable_state (s : ssc) :
  state (hsk_ssc_enable s)
  = match state s with
    | EnabledBusy => EnabledBusy
    | _ => EnabledIdle
    end.
Proof. unfold hsk_ssc_enable. destruct s as [[] ? ? ? ? ? ? ?]; reflexivity. Qed.

(** C9, as stated, fails: a state in the middle of a transfer is reachable,
    and there [enable], once or twice, leaves Enabled-Busy, not
    Enabled-Idle. *)
Lemma hsk_ssc_enable_while_busy :
  reachable mid_transfer /\
  state (hsk_ssc_enable mid_transfer) = EnabledBusy /\
  state (hsk_ssc_enable (hsk_ssc_enable mid_transfer)) = EnabledBusy /\
  state (hsk_ssc_enable mid_transfer) <> EnabledIdle.
Proof.
  split; [exact mid_transfer_reachable|].
  repeat split; try reflexivity. discriminate.
Qed.

(** C9 (amended): [enable] and [disable] are idempotent in every state:
    twice in a row gives the same state as once.  After [disable] the state
    is Disabled; after [enable] it is Enabled-Idle, except that a transfer
    in flight stays Enabled-Busy. *)
Theorem hsk_ssc_enable_disable_idempotent (s : ssc) :
  hsk_ssc_enable (hsk_ssc_enable s) = hsk_ssc_enable s /\
  hsk_ssc_disable (hsk_ssc_disable s) = hsk_ssc_disable s /\
  state (hsk_ssc_disable s) = Disabled /\
  state (hsk_ssc_enable s)
  = match state s with
    | EnabledBusy => EnabledBusy
    | _ => EnabledIdle
    end.
Proof.
  split; [|split; [|split]].
  - unfold hsk_ssc_enable. destruct s as [[] ? ? ? ? ? ? ?]; reflexivity.
  - reflexivity.
  - reflexivity.
  - apply hsk_ssc_enable_state.
Qed.

(** ** Transceive engine *)

Local Close Scope Z_scope.

Section Transfer.
Variable s : ssc.
Variables pre post tx : list Z.
Variable b : Z.
Hypothesis Hbusy : state s = EnabledBusy.
Hypothesis Hbuffer : buffer s = pre ++ b :: tx ++ post.
Hypothesis Hcursor : cursor s = length pre.
Hypothesis Hlen : len s = length pre + S (length tx).

(** One completion: the byte in flight is replaced by the received one;
    the transfer goes on with the next byte, or ends with the last. *)
Lemma completion_step (r : Z) :
  completion r s
  = Some (match tx with
          | [] =>
              (with_state EnabledIdle
                 (with_transfer (pre ++ r :: tx ++ post) (len s)
                    (S (length pre)) s),
               [Complete (length pre) r])
          | b' :: _ =>
              (with_transfer (pre ++ r :: tx ++ post) (len s)
                 (S (length pre)) s,
               [Complete (length pre) r; Transmit (S (length pre)) b'])
          end).
Proof using All.
  unfold completion. rewrite Hbusy, Hbuffer, Hcursor, Hlen. cbn zeta.
  rewrite list_lookup_middle by reflexivity. cbn [mbind option_bind].
  replace (<[length pre := r]> (pre ++ b :: tx ++ post))
    with (pre ++ r :: tx ++ post)
    by (rewrite <- (Nat.add_0_r (length pre)); now rewrite insert_app_r).
  destruct tx as [|b' tx'].
  - replace (S (length pre) <? length pre + S (length (@nil Z)))
      with false by (symmetry; apply Nat.ltb_ge; simpl; lia).
    reflexivity.
  - replace (S (length pre) <? length pre + S (length (b' :: tx')))
      with true by (symmetry; apply Nat.ltb_lt; simpl; lia).
    replace (pre ++ r :: (b' :: tx') ++ post)
      with ((pre ++ [r]) ++ b' :: tx' ++ post)
      by (now rewrite <- app_assoc).
    rewrite list_lookup_middle by (rewrite length_app; simpl; lia).
    reflexivity.
Qed.
End Transfer.

Lemma exchange_trace_length (tx : list Z) :
  forall rx j, length tx = length rx ->
               length (exchange_trace j tx rx) = 2 * length rx.
Proof.
  induction tx as [|b tx IH]; intros [|r rx] j Hlen;
    simpl in *; try discriminate; [reflexivity|].
  rewrite IH by lia. lia.
Qed.

Lemma exchange_trace_completions (tx : list Z) :
  forall rx j, length tx = length rx ->
               count_completions (exchange_trace j tx rx) = length rx.
Proof.
  induction tx as [|b tx IH]; intros [|r rx] j Hlen;
    simpl in *; try discriminate; [reflexivity|].
  rewrite IH by lia. reflexivity.
Qed.

(** Position [i] appears in the trace exactly at the places [2 i] and
    [2 i + 1]: transmitted first, completed next. *)
Lemma exchange_trace_lookup (tx : list Z) :
  forall rx j i b r,
    tx !! i = Some b -> rx !! i = Some r ->
    exchange_trace j tx rx !! (2 * i) = Some (Transmit (j + i) b) /\
    exchange_trace j tx rx !! S (2 * i) = Some (Complete (j + i) r).
Proof.
  induction tx as [|b0 tx IH]; intros [|r0 rx] j i b r Hb Hr;
    try discriminate.
  destruct i as [|i].
  - simpl in Hb, Hr. injection Hb as ->. injection Hr as ->.
    rewrite Nat.add_0_r. split; reflexivity.
  - simpl in Hb, Hr.
    destruct (IH rx (S j) i b r Hb Hr) as [H1 H2].
    replace (2 * S i) with (S (S (2 * i))) by lia.
    replace (j + S i) with (S j + i) by lia.
    split; assumption.
Qed.

(** The completions of a whole transfer: all remaining bytes are exchanged
    and the state is Enabled-Idle. *)
Lemma completions_all (tx : list Z) :
  forall rx s pre post b,
    state s = EnabledBusy ->
    buffer s = pre ++ b :: tx ++ post ->
    cursor s = length pre ->
    len s = length pre + S (length tx) ->
    length rx = S (length tx) ->
    exists s',
      completions rx s
      = Some (s', tl (exchange_trace (length pre) (b :: tx) rx)) /\
      state s' = EnabledIdle /\
      buffer s' = pre ++ rx ++ post.
Proof.
  induction tx as [|b' tx IH]; intros rx s pre post b Hst Hbuf Hcur Hlen Hrx.
  - destruct rx as [|r [|? ?]]; try discriminate.
    cbn [completions].
    rewrite (completion_step s pre post [] b Hst Hbuf Hcur Hlen).
    eexists. split; [reflexivity|]. split; reflexivity.
  - destruct rx as [|r rx]; [discriminate|].
    injection Hrx as Hrx.
    cbn [completions].
    rewrite (completion_step s pre post (b' :: tx) b Hst Hbuf Hcur Hlen).
    cbn [mbind option_bind].
    set (s1 := with_transfer _ _ _ s).
    destruct (IH rx s1 (pre ++ [r]) post b') as (s' & Hrun & Hidle & Hb').
    + exact Hst.
    + subst s1. cbn. now rewrite <- app_assoc.
    + subst s1. cbn. rewrite length_app. simpl. lia.
    + subst s1. cbn. rewrite length_app, Hlen. simpl. lia.
    + exact Hrx.
    + rewrite Hrun. cbn [mbind option_bind].
      exists s'. split; [|split; [exact Hidle|]].
      * rewrite length_app, Nat.add_1_r.
        destruct rx as [|r' rx]; [discriminate|]. reflexivity.
      * rewrite Hb', <- app_assoc. reflexivity.
Qed.

(** Fewer completions than bytes: the transfer is still in flight. *)
Lemma completions_partial (rx : list Z) :
  forall tx s pre post b,
    state s = EnabledBusy ->
    buffer s = pre ++ b :: tx ++ post ->
    cursor s = length pre ->
    len s = length pre + S (length tx) ->
    length rx <= length tx ->
    exists s' tr, completions rx s = Some (s', tr) /\
                  state s' = EnabledBusy.
Proof.
  induction rx as [|r rx IH]; intros tx s pre post b Hst Hbuf Hcur Hlen Hrx.
  - exists s, []. split; [reflexivity|exact Hst].
  - destruct tx as [|b' tx]; [simpl in Hrx; lia|].
    cbn [completions].
    rewrite (completion_step s pre post (b' :: tx) b Hst Hbuf Hcur Hlen).
    cbn [mbind option_bind].
    set (s1 := with_transfer _ _ _ s).
    destruct (IH tx s1 (pre ++ [r]) post b') as (s' & tr & Hrun & Hbusy).
    + exact Hst.
    + subst s1. cbn. now rewrite <- app_assoc.
    + subst s1. cbn. rewrite length_app. simpl. lia.
    + subst s1. cbn. rewrite length_app, Hlen. simpl. lia.
    + simpl in Hrx. lia.
    + rewrite Hrun. cbn [mbind option_bind].
      eexists _, _. split; [reflexivity|exact Hbusy].
Qed.

Lemma hsk_ssc_talk_start (s : ssc) (b : Z) (rest : list Z) (m : nat) :
  state s = EnabledIdle ->
  hsk_ssc_talk (b :: rest) (S m) s
  = Some (with_state EnabledBusy (with_transfer (b :: rest) (S m) 0 s),
          [Transmit 0 b]).
Proof. intros Hidle. unfold hsk_ssc_talk. rewrite Hidle. reflexivity. Qed.

(** C4: a call [hsk_ssc_talk(buffer, len)] in state Enabled-Idle, followed
    by the completions of the [len] received bytes [rx], runs to the end:
    the trace has exactly [len] completion events; position [i] is
    transmitted (event [2 i], with the byte the caller put there) and then
    overwritten with the [i]-th received byte (event [2 i + 1]), the trace
    having no other event; the buffer ends as the received bytes followed by
    the untouched rest; the state is Enabled-Busy after every [k < len]
    completions and Enabled-Idle after the last, when no further completion
    occurs. *)
Theorem hsk_ssc_talk_transfers (s : ssc) (buf rx : list Z) (n : nat) :
  state s = EnabledIdle -> n <= length buf -> length rx = n ->
  exists s' tr,
    talk_run buf n rx s = Some (s', tr) /\
    tr = exchange_trace 0 (take n buf) rx /\
    count_completions tr = n /\
    length tr = 2 * n /\
    (forall i b r,
       buf !! i = Some b -> rx !! i = Some r ->
       tr !! (2 * i) = Some (Transmit i b) /\
       tr !! S (2 * i) = Some (Complete i r)) /\
    buffer s' = rx ++ drop n buf /\
    state s' = EnabledIdle /\
    (forall r, completion r s' = None) /\
    (forall k, k < n ->
       exists sk tk, talk_run buf n (take k rx) s = Some (sk, tk) /\
                     state sk = EnabledBusy /\ hsk_ssc_busy sk = true).
Proof.
  intros Hidle Hn Hrx.
  assert (Htake : length (take n buf) = length rx)
    by (rewrite length_take; lia).
  assert (Hrun : exists s',
             talk_run buf n rx s
             = Some (s', exchange_trace 0 (take n buf) rx) /\
             state s' = EnabledIdle /\ buffer s' = rx ++ drop n buf).
  { destruct n as [|m].
    - destruct rx; [|discriminate].
      unfold talk_run, hsk_ssc_talk. rewrite Hidle.
      eexists. split; [reflexivity|]. split; [exact Hidle|reflexivity].
    - destruct buf as [|b rest]; [simpl in Hn; lia|].
      unfold talk_run. rewrite hsk_ssc_talk_start by exact Hidle.
      cbn [mbind option_bind].
      set (s1 := with_state _ _).
      destruct (completions_all (take m rest) rx s1 [] (drop m rest) b)
        as (s' & Hrun & Hidle' & Hbuf').
      + reflexivity.
      + subst s1. cbn. now rewrite take_drop.
      + reflexivity.
      + subst s1. cbn. rewrite length_take. simpl in Hn. lia.
      + rewrite length_take. simpl in Hn. lia.
      + rewrite Hrun. cbn [mbind option_bind].
        exists s'. split; [|split; [exact Hidle'|exact Hbuf']].
        destruct rx as [|r rx]; [discriminate|]. reflexivity. }
  destruct Hrun as (s' & Hrun & Hidle' & Hbuf').
  exists s', (exchange_trace 0 (take n buf) rx).
  split; [exact Hrun|]. split; [reflexivity|].
  split; [rewrite exchange_trace_completions by exact Htake; exact Hrx|].
  split; [rewrite exchange_trace_length by exact Htake; lia|].
  split.
  { intros i b r Hb Hr.
    assert (Hi : i < n) by (rewrite <- Hrx; now apply lookup_lt_Some with r).
    apply (exchange_trace_lookup (take n buf) rx 0 i b r); [|exact Hr].
    rewrite lookup_take. destruct (decide (i < n)); [exact Hb|lia]. }
  split; [exact Hbuf'|]. split; [exact Hidle'|].
  split; [intros r; unfold completion; now rewrite Hidle'|].
  intros k Hk.
  destruct n as [|m]; [lia|].
  destruct buf as [|b rest]; [simpl in Hn; lia|].
  unfold talk_run. rewrite hsk_ssc_talk_start by exact Hidle.
  cbn [mbind option_bind].
  set (s1 := with_state _ _).
  destruct (completions_partial (take k rx) (take m rest) s1 []
              (drop m rest) b) as (sk & tk & Hk' & Hbusy).
  - reflexivity.
  - subst s1. cbn. now rewrite take_drop.
  - reflexivity.
  - subst s1. cbn. rewrite length_take. simpl in Hn. lia.
  - rewrite !length_take. simpl in Hn. lia.
  - rewrite Hk'. cbn [mbind option_bind].
    eexists _, _. split; [reflexivity|].
    split; [exact Hbusy|]. unfold hsk_ssc_busy. now rewrite Hbusy.
Qed.

Lemma hsk_ssc_talk_transfers_witness :
  exists s' tr,
    talk_run [1; 2; 3; 4]%Z 3 [7; 8; 9]%Z
      (hsk_ssc_enable (hsk_ssc_init 11 135 SSC_MASTER power_on))
    = Some (s', tr) /\
    tr = exchange_trace 0 (take 3 [1; 2; 3; 4]%Z) [7; 8; 9]%Z /\
    buffer s' = [7; 8; 9]%Z ++ drop 3 [1; 2; 3; 4]%Z /\
    state s' = EnabledIdle.
Proof.
  destruct (hsk_ssc_talk_transfers
              (hsk_ssc_enable (hsk_ssc_init 11 135 SSC_MASTER power_on))
              [1; 2; 3; 4]%Z [7; 8; 9]%Z 3)
    as (s' & tr & Hrun & Htr & _ & _ & _ & Hbuf & Hidle & _).
  - reflexivity.
  - simpl. lia.
  - reflexivity.
  - exists s', tr. repeat split; assumption.
Defined.


(** * Further properties of the header *)

Local Open Scope Z_scope.

(** ** The baud rate the macro selects *)

Lemma quotient_spec (bps : Z) :
  0 < bps ->
  (12000000 / bps) * bps <= 12000000 < (12000000 / bps + 1) * bps.
Proof.
  intros H.
  pose proof (Z.div_mod 12000000 bps ltac:(lia)).
  pose proof (Z.mod_pos_bound 12000000 bps H).
  nia.
Qed.

Lemma quotient_unique (bps q : Z) :
  0 < bps -> q * bps <= 12000000 < (q + 1) * bps -> 12000000 / bps = q.
Proof.
  intros H Hq. symmetry.
  apply (Z.div_unique 12000000 bps q (12000000 - bps * q)); lia.
Qed.

(** The reload value is fixed by two bounds: [v + 1] bit times of the
    requested rate fit into the 12 MHz second, [v + 2] do not. *)
Theorem SSC_BAUD_bracket (bps v : Z) :
  184 <= bps <= 12000000 ->
  (SSC_BAUD bps = Some v
   <-> 0 <= v /\ (v + 1) * bps <= 12000000 < (v + 2) * bps).
Proof.
  intros H. rewrite SSC_BAUD_exact by exact H.
  pose proof (quotient_spec bps ltac:(lia)) as Hq.
  pose proof (quotient_bounds bps H) as Hb.
  split.
  - intros [= <-]. split; [lia|].
    replace (12000000 / bps - 1 + 1) with (12000000 / bps) by lia.
    replace (12000000 / bps - 1 + 2) with (12000000 / bps + 1) by lia.
    exact Hq.
  - intros [Hv Hbr]. f_equal.
    rewrite (quotient_unique bps (v + 1)); [lia|lia|].
    replace (v + 1 + 1) with (v + 2) by lia. exact Hbr.
Qed.

Lemma SSC_BAUD_bracket_witness :
  184 <= 5000000 <= 12000000 /\
  (SSC_BAUD 5000000 = Some 1
   <-> 0 <= 1 /\ (1 + 1) * 5000000 <= 12000000 < (1 + 2) * 5000000).
Proof. split; [lia|]. apply (SSC_BAUD_bracket 5000000 1). lia. Defined.





(** The reload value is 0, the 12 Mbit/s setting that only master mode
    supports, exactly for the rates above 6,000,000 up to 12,000,000
    bits/s; no other request, however small or large, yields it. *)
Theorem SSC_BAUD_zero_iff (bps : Z) :
  1 <= bps ->
  (SSC_BAUD bps = Some 0 <-> 6000000 < bps <= 12000000).
Proof.
  intros H. rewrite SSC_BAUD_nonzero by lia.
  pose proof (quotient_spec bps ltac:(lia)) as Hq.
  set (q := 12000000 / bps) in *.
  split.
  - intros [= Hmod].
    assert (Hdec : q - 1 = 65536 * ((q - 1) / 65536))
      by (pose proof (Z.div_mod (q - 1) 65536 ltac:(lia)); lia).
    set (m := (q - 1) / 65536) in *.
    assert (Hm : 0 <= m).
    { assert (0 <= q) by (apply Z.div_pos; lia). subst m.
      destruct (Z.eq_dec q 0) as [-> | ?]; [discriminate Hmod|].
      apply Z.div_pos; lia. }
    assert (m = 0) by nia.
    nia.
  - intros Hr. assert (q = 1) by nia. subst q.
    replace (12000000 / bps) with 1 by lia. reflexivity.
Qed.

Lemma SSC_BAUD_zero_iff_witness :
  1 <= 8000000 /\
  (SSC_BAUD 8000000 = Some 0 <-> 6000000 < 8000000 <= 12000000).
Proof. split; [lia|]. apply (SSC_BAUD_zero_iff 8000000). lia. Defined.

(** ** SSC_CONF outside the documented widths *)

Lemma width_cases_1_16 (width : Z) :
  1 <= width <= 16 ->
  width = 1 \/ width = 2 \/ width = 3 \/ width = 4 \/ width = 5 \/
  width = 6 \/ width = 7 \/ width = 8 \/ width = 9 \/ width = 10 \/
  width = 11 \/ width = 12 \/ width = 13 \/ width = 14 \/ width = 15 \/
  width = 16.
Proof. lia. Qed.

Lemma width_cases_17_32 (width : Z) :
  17 <= width <= 32 ->
  width = 17 \/ width = 18 \/ width = 19 \/ width = 20 \/ width = 21 \/
  width = 22 \/ width = 23 \/ width = 24 \/ width = 25 \/ width = 26 \/
  width = 27 \/ width = 28 \/ width = 29 \/ width = 30 \/ width = 31 \/
  width = 32.
Proof. lia. Qed.

Ltac each_case H := repeat (destruct H as [-> | H]); [..|subst].

Ltac flag_cases :=
  repeat match goal with
         | H : is_flag _ |- _ => destruct H as [-> | ->]
         end.

(** The macro checks no width, and the four flags start at bit 4: any
    width from 1 to 16 leaves them alone.  The byte is then the sum of the
    fields, its low four bits hold [width - 1] and every flag reads back;
    for the widths 9 to 16 this sets bit 3, which no documented width
    does. *)
Theorem SSC_CONF_four_bit_width (width heading phase polarity duplex : Z) :
  1 <= width <= 16 ->
  is_flag heading -> is_flag phase -> is_flag polarity -> is_flag duplex ->
  let c := SSC_CONF width heading phase polarity duplex in
  c = (width - 1) + 16 * heading + 32 * phase + 64 * polarity
      + 128 * duplex /\
  0 <= c <= 255 /\
  Z.land c 15 = width - 1 /\
  Z.testbit c 3 = (9 <=? width) /\
  conf_heading c = heading /\ conf_phase c = phase /\
  conf_polarity c = polarity /\ conf_duplex c = duplex.
Proof.
  intros Hw Hh Hp Hpol Hd c. subst c.
  apply width_cases_1_16 in Hw.
  flag_cases; each_case Hw; repeat split;
    first [reflexivity | vm_compute; discriminate].
Qed.

Lemma SSC_CONF_four_bit_width_witness :
  1 <= 12 <= 16 /\
  let c := SSC_CONF 12 1 0 0 1 in
  c = (12 - 1) + 16 * 1 + 32 * 0 + 64 * 0 + 128 * 1 /\
  0 <= c <= 255 /\
  Z.land c 15 = 12 - 1 /\
  Z.testbit c 3 = (9 <=? 12) /\
  conf_heading c = 1 /\ conf_phase c = 0 /\
  conf_polarity c = 0 /\ conf_duplex c = 1.
Proof.
  split; [lia|].
  apply (SSC_CONF_four_bit_width 12 1 0 0 1); unfold is_flag; lia.
Defined.

(** Beyond that the width destroys flags.  Width 0 makes [width - 1] all
    ones, so the result is -1, the byte [0xFF], whatever the flags are; a
    width from 17 to 32 reaches bit 4, and the heading flag no longer makes
    a difference. *)
Theorem SSC_CONF_flags_lost :
  (forall heading phase polarity duplex,
     SSC_CONF 0 heading phase polarity duplex = -1 /\
     cast_ubyte (SSC_CONF 0 heading phase polarity duplex) = 0xFF) /\
  (forall width phase polarity duplex,
     17 <= width <= 32 ->
     is_flag phase -> is_flag polarity -> is_flag duplex ->
     SSC_CONF width 0 phase polarity duplex
     = SSC_CONF width 1 phase polarity duplex).
Proof.
  split.
  - intros heading phase polarity duplex.
    assert (H : SSC_CONF 0 heading phase polarity duplex = -1).
    { unfold SSC_CONF. change (0 - 1) with (-1).
      now rewrite !Z.lor_m1_l. }
    rewrite H. split; reflexivity.
  - intros width phase polarity duplex Hw Hp Hpol Hd.
    apply width_cases_17_32 in Hw.
    flag_cases; each_case Hw; reflexivity.
Qed.

Lemma SSC_CONF_flags_lost_witness :
  17 <= 20 <= 32 /\
  SSC_CONF 0 1 0 1 0 = -1 /\
  SSC_CONF 20 0 1 0 1 = SSC_CONF 20 1 1 0 1.
Proof.
  split; [lia|].
  destruct SSC_CONF_flags_lost as [Hzero Hwide].
  split; [apply Hzero|].
  apply (Hwide 20 1 0 1); unfold is_flag; lia.
Defined.

(** ** Port configurations as a parameter *)

(** A port configuration uses bits 0 to 5 only: it is at most 42, bits 6
    and 7 are clear, and the [const ubyte] parameter of [hsk_ssc_ports]
    receives it unchanged. *)
Theorem SSC_PORTS_ubyte (mrst mtsr sclk : Z) :
  In mrst SSC_MRST -> In mtsr SSC_MTSR -> In sclk SSC_SCLK ->
  0 <= SSC_PORTS mrst mtsr sclk <= 42 /\
  Z.testbit (SSC_PORTS mrst mtsr sclk) 6 = false /\
  Z.testbit (SSC_PORTS mrst mtsr sclk) 7 = false /\
  cast_ubyte (SSC_PORTS mrst mtsr sclk) = SSC_PORTS mrst mtsr sclk.
Proof.
  intros Hr Ht Hc.
  port_cases; repeat split; (reflexivity || (vm_compute; discriminate)).
Qed.

Lemma SSC_PORTS_ubyte_witness :
  In SSC_MRST_P15 SSC_MRST /\ In SSC_MTSR_P14 SSC_MTSR /\
  In SSC_SCLK_P13 SSC_SCLK /\
  cast_ubyte (SSC_PORTS SSC_MRST_P15 SSC_MTSR_P14 SSC_SCLK_P13) = 42.
Proof.
  assert (Hr : In SSC_MRST_P15 SSC_MRST) by (simpl; auto).
  assert (Ht : In SSC_MTSR_P14 SSC_MTSR) by (simpl; auto).
  assert (Hc : In SSC_SCLK_P13 SSC_SCLK) by (simpl; auto).
  repeat (split; [assumption|]).
  destruct (SSC_PORTS_ubyte SSC_MRST_P15 SSC_MTSR_P14 SSC_SCLK_P13 Hr Ht Hc)
    as (_ & _ & _ & ->).
  reflexivity.
Defined.

(** ** Pin direction for half duplex operation *)

Lemma cast_ubyte_range (z : Z) : 0 <= cast_ubyte z <= 255.
Proof.
  unfold cast_ubyte, ubyte_bits.
  pose proof (Z.mod_pos_bound z (2 ^ 8) ltac:(lia)). lia.
Qed.

Lemma ubyte_high_bits (p i : Z) :
  0 <= p <= 255 -> 8 <= i -> Z.testbit p i = false.
Proof.
  intros Hp Hi.
  apply (proj1 (Z.bounded_iff_bits_nonneg 8 p ltac:(lia) ltac:(lia)));
    [lia|exact Hi].
Qed.

Lemma SSC_TX_bits (p i : Z) :
  0 <= p <= 255 ->
  Z.testbit (SSC_TX p) i = Z.testbit p i || (i =? 5).
Proof.
  intros Hp. destruct (Z.lt_ge_cases i 0) as [Hneg | Hpos].
  - rewrite !Z.testbit_neg_r by lia.
    destruct (Z.eqb_spec i 5); [lia|reflexivity].
  - unfold SSC_TX, cast_ubyte, ubyte_bits.
    rewrite Z.testbit_mod_pow2 by lia. rewrite Z.lor_spec.
    change (Z.shiftl 1 5) with (2 ^ 5).
    rewrite Z.pow2_bits_eqb by lia. rewrite (Z.eqb_sym 5 i).
    destruct (Z.ltb_spec i 8) as [Hlt | Hge]; [reflexivity|].
    rewrite ubyte_high_bits by assumption.
    destruct (Z.eqb_spec i 5); [lia|reflexivity].
Qed.

Lemma SSC_RX_bits (p i : Z) :
  0 <= p <= 255 ->
  Z.testbit (SSC_RX p) i = Z.testbit p i && negb (i =? 5).
Proof.
  intros Hp. destruct (Z.lt_ge_cases i 0) as [Hneg | Hpos].
  - now rewrite !Z.testbit_neg_r by lia.
  - unfold SSC_RX, cast_ubyte, ubyte_bits.
    rewrite Z.testbit_mod_pow2 by lia. rewrite Z.land_spec.
    rewrite Z.lnot_spec by lia.
    change (Z.shiftl 1 5) with (2 ^ 5).
    rewrite Z.pow2_bits_eqb by lia. rewrite (Z.eqb_sym 5 i).
    destruct (Z.ltb_spec i 8) as [Hlt | Hge]; [reflexivity|].
    now rewrite ubyte_high_bits by assumption.
Qed.

(** The recommended macros do what the header says of them: [SSC_TX] sets
    bit 5 of the direction register (P0.5 an output), [SSC_RX] clears it
    (an input), and neither touches another pin.  Each undoes the other, so
    after [SSC_TX] then [SSC_RX] the register is as after [SSC_RX] alone,
    and the other way round. *)
Theorem SSC_TX_RX_pin_5 (P0_DIR : Z) :
  0 <= P0_DIR <= 255 ->
  Z.testbit (SSC_TX P0_DIR) 5 = true /\
  Z.testbit (SSC_RX P0_DIR) 5 = false /\
  (forall i, i <> 5 ->
     Z.testbit (SSC_TX P0_DIR) i = Z.testbit P0_DIR i /\
     Z.testbit (SSC_RX P0_DIR) i = Z.testbit P0_DIR i) /\
  SSC_RX (SSC_TX P0_DIR) = SSC_RX P0_DIR /\
  SSC_TX (SSC_RX P0_DIR) = SSC_TX P0_DIR /\
  (Z.testbit P0_DIR 5 = false -> SSC_RX (SSC_TX P0_DIR) = P0_DIR) /\
  (Z.testbit P0_DIR 5 = true -> SSC_TX (SSC_RX P0_DIR) = P0_DIR).
Proof.
  intros Hp.
  pose proof (cast_ubyte_range (Z.lor P0_DIR (Z.shiftl 1 5))) as Htx.
  pose proof (cast_ubyte_range (Z.land P0_DIR (Z.lnot (Z.shiftl 1 5))))
    as Hrx.
  fold (SSC_TX P0_DIR) in Htx. fold (SSC_RX P0_DIR) in Hrx.
  split; [rewrite SSC_TX_bits by exact Hp; apply orb_true_r|].
  split; [rewrite SSC_RX_bits by exact Hp; apply andb_false_r|].
  split.
  { intros i Hi. rewrite SSC_TX_bits, SSC_RX_bits by exact Hp.
    destruct (Z.eqb_spec i 5); [contradiction|].
    now rewrite orb_false_r, andb_true_r. }
  split.
  { apply Z.bits_inj'. intros i _.
    rewrite !SSC_RX_bits, SSC_TX_bits by assumption.
    destruct (Z.testbit P0_DIR i), (i =? 5); reflexivity. }
  split.
  { apply Z.bits_inj'. intros i _.
    rewrite !SSC_TX_bits, SSC_RX_bits by assumption.
    destruct (Z.testbit P0_DIR i), (i =? 5); reflexivity. }
  split.
  - intros H5. apply Z.bits_inj'. intros i _.
    rewrite SSC_RX_bits, SSC_TX_bits by assumption.
    destruct (Z.eqb_spec i 5) as [-> | _].
    + rewrite H5. reflexivity.
    + now rewrite orb_false_r, andb_true_r.
  - intros H5. apply Z.bits_inj'. intros i _.
    rewrite SSC_TX_bits, SSC_RX_bits by assumption.
    destruct (Z.eqb_spec i 5) as [-> | _].
    + rewrite H5. reflexivity.
    + now rewrite orb_false_r, andb_true_r.
Qed.

Lemma SSC_TX_RX_pin_5_witness :
  0 <= 0x83 <= 255 /\
  Z.testbit (SSC_TX 0x83) 5 = true /\
  Z.testbit (SSC_RX 0x83) 5 = false /\
  SSC_RX (SSC_TX 0x83) = SSC_RX 0x83.
Proof.
  split; [lia|].
  destruct (SSC_TX_RX_pin_5 0x83 ltac:(lia)) as (Ht & Hr & _ & Hrt & _).
  repeat split; assumption.
Defined.

(** ** The buffer beyond the given length *)

Local Close Scope Z_scope.

Lemma exchange_trace_positions (tx : list Z) :
  forall rx j e,
    In e (exchange_trace j tx rx) ->
    j <= event_position e < j + length rx.
Proof.
  induction tx as [|b tx IH]; intros [|r rx] j e Hin;
    simpl in Hin; try contradiction.
  destruct Hin as [<- | [<- | Hin]]; simpl; try lia.
  apply IH in Hin. lia.
Qed.

(** A whole transfer, as a function of the buffer and the bytes
    received. *)
Lemma talk_run_whole (s : ssc) (buf rx : list Z) (n : nat) :
  state s = EnabledIdle -> n <= length buf -> length rx = n ->
  exists s',
    talk_run buf n rx s = Some (s', exchange_trace 0 (take n buf) rx) /\
    buffer s' = rx ++ drop n buf.
Proof.
  intros Hidle Hn Hrx. destruct n as [|m].
  - destruct rx; [|discriminate].
    unfold talk_run, hsk_ssc_talk. rewrite Hidle.
    eexists. split; reflexivity.
  - destruct buf as [|b rest]; [simpl in Hn; lia|].
    unfold talk_run. rewrite hsk_ssc_talk_start by exact Hidle.
    cbn [mbind option_bind].
    set (s1 := with_state _ _).
    destruct (completions_all (take m rest) rx s1 [] (drop m rest) b)
      as (s' & Hrun & _ & Hbuf').
    + reflexivity.
    + subst s1. cbn. now rewrite take_drop.
    + reflexivity.
    + subst s1. cbn. rewrite length_take. simpl in Hn. lia.
    + rewrite length_take. simpl in Hn. lia.
    + rewrite Hrun. cbn [mbind option_bind].
      exists s'. split; [|exact Hbuf'].
      destruct rx as [|r rx]; [discriminate|]. reflexivity.
Qed.

(** What the header says of [sizeof(buffer) - 1]: a transfer of [len]
    bytes neither sends nor overwrites what lies behind them.  The buffer
    keeps its size, every position from [len] on holds what it held, and no
    event of the transfer is about such a position; so a string passed
    without its terminal 0 character still ends in it. *)
Theorem hsk_ssc_talk_spares_tail (s : ssc) (buf rx : list Z) (n : nat) :
  state s = EnabledIdle -> n <= length buf -> length rx = n ->
  exists s' tr,
    talk_run buf n rx s = Some (s', tr) /\
    length (buffer s') = length buf /\
    (forall j, n <= j -> buffer s' !! j = buf !! j) /\
    (forall e, In e tr -> event_position e < n) /\
    (forall text, buf = text ++ [0%Z] -> n = length text ->
                  buffer s' = rx ++ [0%Z]).
Proof.
  intros Hidle Hn Hrx.
  destruct (talk_run_whole s buf rx n Hidle Hn Hrx) as (s' & Hrun & Hbuf).
  exists s', (exchange_trace 0 (take n buf) rx).
  split; [exact Hrun|]. rewrite Hbuf.
  split; [rewrite length_app, length_drop; lia|].
  split.
  { intros j Hj.
    rewrite lookup_app_r by lia. rewrite lookup_drop.
    f_equal. lia. }
  split.
  { intros e He. apply exchange_trace_positions in He. lia. }
  intros text -> ->. now rewrite drop_app_length.
Qed.

Lemma hsk_ssc_talk_spares_tail_witness :
  exists s' tr,
    talk_run [111; 107; 0]%Z 2 [65; 66]%Z
      (hsk_ssc_enable (hsk_ssc_init 11 135 SSC_MASTER power_on))
    = Some (s', tr) /\
    buffer s' = [65; 66; 0]%Z.
Proof.
  destruct (hsk_ssc_talk_spares_tail
              (hsk_ssc_enable (hsk_ssc_init 11 135 SSC_MASTER power_on))
              [111; 107; 0]%Z [65; 66]%Z 2)
    as (s' & tr & Hrun & _ & _ & _ & Htext).
  - reflexivity.
  - simpl. lia.
  - reflexivity.
  - exists s', tr. split; [exact Hrun|].
    apply (Htext [111; 107]%Z); reflexivity.
Defined.

(** ** Busy until the last byte *)

(** Any number of completions up to the number of bytes left: the bytes
    received so far have replaced the first ones left, and the state is
    Enabled-Idle only if none remains. *)
Lemma completions_prefix (rx : list Z) :
  forall tx s pre post b,
    state s = EnabledBusy ->
    buffer s = pre ++ b :: tx ++ post ->
    cursor s = length pre ->
    len s = length pre + S (length tx) ->
    length rx <= S (length tx) ->
    exists s' tr,
      completions rx s = Some (s', tr) /\
      buffer s' = pre ++ rx ++ drop (length rx) (b :: tx) ++ post /\
      state s' = if length rx =? S (length tx) then EnabledIdle
                 else EnabledBusy.
Proof.
  induction rx as [|r rx IH]; intros tx s pre post b Hst Hbuf Hcur Hlen Hrx.
  - exists s, []. split; [reflexivity|]. split; [exact Hbuf|exact Hst].
  - cbn [completions].
    rewrite (completion_step s pre post tx b Hst Hbuf Hcur Hlen).
    cbn [mbind option_bind].
    destruct tx as [|b' tx].
    + destruct rx; [|simpl in Hrx; lia].
      eexists _, _. split; [reflexivity|]. split; reflexivity.
    + set (s1 := with_transfer _ _ _ s).
      destruct (IH tx s1 (pre ++ [r]) post b')
        as (s' & tr & Hrun & Hbuf' & Hst').
      * exact Hst.
      * subst s1. cbn. now rewrite <- app_assoc.
      * subst s1. cbn. rewrite length_app. simpl. lia.
      * subst s1. cbn. rewrite length_app, Hlen. simpl. lia.
      * simpl in Hrx. lia.
      * rewrite Hrun. cbn [mbind option_bind].
        eexists _, _. split; [reflexivity|].
        split; [rewrite Hbuf', <- app_assoc; reflexivity|exact Hst'].
Qed.

(** [hsk_ssc_busy] tells whether the buffer was completely read and
    written: after [hsk_ssc_talk] and the completions of the first bytes
    received it is true exactly while fewer than [len] bytes are done.
    Until then the buffer is part data received, part data still to be
    sent: the bytes received so far, followed by the caller's bytes from
    that position on. *)
Theorem hsk_ssc_busy_until_done (s : ssc) (buf rx : list Z) (n : nat) :
  state s = EnabledIdle -> n <= length buf -> length rx <= n ->
  exists s' tr,
    talk_run buf n rx s = Some (s', tr) /\
    hsk_ssc_busy s' = (length rx <? n) /\
    buffer s' = rx ++ drop (length rx) buf.
Proof.
  intros Hidle Hn Hrx. destruct n as [|m].
  - destruct rx; [|simpl in Hrx; lia].
    unfold talk_run, hsk_ssc_talk. rewrite Hidle.
    eexists _, _. split; [reflexivity|].
    split; [unfold hsk_ssc_busy; cbn; now rewrite Hidle|reflexivity].
  - destruct buf as [|b rest]; [simpl in Hn; lia|].
    unfold talk_run. rewrite hsk_ssc_talk_start by exact Hidle.
    cbn [mbind option_bind].
    set (s1 := with_state _ _).
    assert (Hm : length (take m rest) = m)
      by (rewrite length_take; simpl in Hn; lia).
    destruct (completions_prefix rx (take m rest) s1 [] (drop m rest) b)
      as (s' & tr & Hrun & Hbuf' & Hst').
    + reflexivity.
    + subst s1. cbn. now rewrite take_drop.
    + reflexivity.
    + subst s1. cbn. lia.
    + lia.
    + rewrite Hrun. cbn [mbind option_bind].
      eexists _, _. split; [reflexivity|]. split.
      * unfold hsk_ssc_busy. rewrite Hst', Hm.
        destruct (Nat.eqb_spec (length rx) (S m)) as [He | Hne].
        -- symmetry. apply Nat.ltb_ge. lia.
        -- symmetry. apply Nat.ltb_lt. lia.
      * rewrite Hbuf'. cbn [app]. f_equal.
        rewrite <- drop_app_le by (simpl; lia).
        now rewrite <- app_comm_cons, take_drop.
Qed.

Lemma hsk_ssc_busy_until_done_witness :
  exists s' tr,
    talk_run [1; 2; 3]%Z 3 [7; 8]%Z
      (hsk_ssc_enable (hsk_ssc_init 11 135 SSC_MASTER power_on))
    = Some (s', tr) /\
    hsk_ssc_busy s' = true /\
    buffer s' = [7; 8; 3]%Z.
Proof.
  destruct (hsk_ssc_busy_until_done
              (hsk_ssc_enable (hsk_ssc_init 11 135 SSC_MASTER power_on))
              [1; 2; 3]%Z [7; 8]%Z 3)
    as (s' & tr & Hrun & Hbusy & Hbuf).
  - reflexivity.
  - simpl. lia.
  - simpl. lia.
  - exists s', tr. repeat split; assumption.
Defined.
